(** * rss2mail: the ingestion and delivery pipeline

    A shallow embedding of the polling pipeline of rss2mail:
    [RssService.fetchFeed], [EmailService.sendNewPosts], the [sql] wrapper of
    the mysql module, the methods of [DatabaseService] that the pipeline calls
    and [App.processFeeds]; then the rest of [DatabaseService]
    ([removeFeed], [isDatabaseFullyInitialized], [generateRandomPassword]),
    the command line of [App] and [_security] of the mysql module.

    What lies outside the repository is kept as it is seen from the code:
    - the feed parser, the clock, the SES client and SHA2 are fields of [Env];
    - [connection.query] of mysql2/promise resolves to the pair
      [[results, fields]]; [results] is the array of rows for a SELECT and a
      single header object (OkPacket) for INSERT, UPDATE and DELETE.  The
      module's own [call] reads what [sql] returns for a SELECT as the array
      of rows ([argResults.length], [argResults.map]);
    - the tables are the ones of [createTables]: AUTO_INCREMENT keys, the
      BEFORE INSERT triggers that fill [url_hash] and [hash] with SHA2, the
      UNIQUE keys on [url_hash], [hash] and [link], the foreign key of
      [feedId].  Strings are taken to fit their columns.
    Console output is not part of the model. *)

From Stdlib Require Import ZArith List String Bool Lia Sorted Permutation.
Import ListNotations.
Open Scope Z_scope.

(** ** Models: Post and Feed *)

Record Post := mkPost {
  post_id : option Z;        (* id?: number *)
  title : string;
  link : string;
  content : string;
  pubDate : Z;               (* time value of the Date *)
  feedId : Z;
  sent : bool
}.

Record Feed := mkFeed {
  feed_id : option Z;        (* id?: number *)
  url : string;
  lastChecked : option Z
}.

(** An item as rss-parser hands it over: every field may be missing. *)
Record Item := mkItem {
  item_title : option string;
  item_link : option string;
  item_content : option string;
  item_contentSnippet : option string;
  item_pubDate : option string
}.

(** ** What the process can end in *)

Inductive exn :=
| TypeError            (* raised by the JavaScript runtime *)
| SendError.           (* rejection of [sesClient.send] *)

(** [Return]: the promise resolves; [Throw]: it rejects; [Exit]: the process
    was ended by [process.exit]. The state reached comes with each. *)
Inductive outcome (S A : Type) :=
| Return (a : A) (s : S)
| Throw (e : exn) (s : S)
| Exit (code : Z) (s : S).
Arguments Return {S A} a s.
Arguments Throw {S A} e s.
Arguments Exit {S A} code s.

Definition bind {S A B} (m : outcome S A) (k : A -> S -> outcome S B)
  : outcome S B :=
  match m with
  | Return a s => k a s
  | Throw e s => Throw e s
  | Exit c s => Exit c s
  end.

Definition state_of {S A} (m : outcome S A) : S :=
  match m with Return _ s | Throw _ s | Exit _ s => s end.

(** What a variable typed [T[]] holds at run time after the array patterns
    of [DatabaseService]: nothing, one row object, or an array. *)
Inductive shape (A : Type) :=
| Undefined
| Single (a : A)
| Many (l : list A).
Arguments Undefined {A}.
Arguments Single {A} a.
Arguments Many {A} l.

(** ** The tables *)

Record FeedRow := mkFeedRow {
  fr_id : Z;
  fr_url : string;
  fr_url_hash : string;
  fr_lastChecked : option Z
}.

Record PostRow := mkPostRow {
  pr_id : Z;
  pr_title : string;
  pr_link : string;
  pr_hash : string;
  pr_content : string;
  pr_pubDate : Z;
  pr_feedId : Z;
  pr_sent : bool
}.

Record Store := mkStore {
  feeds : list FeedRow;
  posts : list PostRow;
  feeds_auto : Z;            (* next AUTO_INCREMENT value of feeds.id *)
  posts_auto : Z             (* next AUTO_INCREMENT value of posts.id *)
}.

Definition empty_store : Store := mkStore [] [] 1 1.

(** ** mysql2: what [connection.query] resolves to *)

Inductive sqlError := ER_DUP_ENTRY | ER_PARSE_ERROR.

Record OkPacket := mkOk { insertId : Z; affectedRows : Z }.

Inductive results (A : Type) :=
| RowData (rows : list A)
| Header (k : OkPacket).
Arguments RowData {A} rows.
Arguments Header {A} k.

Inductive fieldPackets := FieldPackets.

Inductive reply (A : Type) :=
| Rejected (e : sqlError)
| Resolved (r : results A * fieldPackets) (s : Store).
Arguments Rejected {A} e.
Arguments Resolved {A} r s.

(** [const [x] = v]: the first element of an array ([None] when it is
    empty, that is [undefined]); a header object is not iterable. *)
Definition array_first {A} (v : results A) : option (option A) :=
  match v with
  | RowData rows => Some (hd_error rows)
  | Header _ => None
  end.

(** ** The outside world *)

Inductive sesReply :=
| SesRejects
| SesResponds (httpStatusCode : option Z).

Record Env := mkEnv {
  SHA2 : string -> string;                       (* SHA2(_, 256) *)
  parseURL : string -> option (list Item);       (* None: the parser throws *)
  Date_now : Z;
  Date_parse : string -> Z;                      (* new Date(string) *)
  ses_send : list Post -> sesReply
}.

Definition post_of_row (r : PostRow) : Post :=
  mkPost (Some (pr_id r)) (pr_title r) (pr_link r) (pr_content r)
         (pr_pubDate r) (pr_feedId r) (pr_sent r).

Definition feed_of_row (r : FeedRow) : Feed :=
  mkFeed (Some (fr_id r)) (fr_url r) (fr_lastChecked r).

Section Statements.
Variable env : Env.

(** INSERT IGNORE INTO posts SET title, link, content, pubDate, feedId,
    sent = FALSE. The trigger sets hash = SHA2(title, 256); a row that
    meets a UNIQUE key (hash, link) or misses its feed is dropped without
    an error. *)
Definition post_conflict (p : Post) (s : Store) : bool :=
  existsb (fun r => String.eqb (pr_hash r) (SHA2 env (title p))) (posts s)
  || existsb (fun r => String.eqb (pr_link r) (link p)) (posts s)
  || negb (existsb (fun f => fr_id f =? feedId p) (feeds s)).

Definition insert_ignore_post (p : Post) (s : Store) : reply Empty_set :=
  if post_conflict p s then
    Resolved (Header (mkOk 0 0), FieldPackets) s
  else
    Resolved (Header (mkOk (posts_auto s) 1), FieldPackets)
      (mkStore (feeds s)
         (posts s ++
            [mkPostRow (posts_auto s) (title p) (link p)
               (SHA2 env (title p)) (content p) (pubDate p) (feedId p) false])
         (feeds_auto s) (posts_auto s + 1)).

(** INSERT INTO feeds SET url = ?. The trigger sets
    url_hash = SHA2(url, 256); a second row with that hash is refused. *)
Definition insert_feed (u : string) (s : Store) : reply Empty_set :=
  if existsb (fun f => String.eqb (fr_url_hash f) (SHA2 env u)) (feeds s)
  then Rejected ER_DUP_ENTRY
  else
    Resolved (Header (mkOk (feeds_auto s) 1), FieldPackets)
      (mkStore (feeds s ++ [mkFeedRow (feeds_auto s) u (SHA2 env u) None])
         (posts s) (feeds_auto s + 1) (posts_auto s)).

(** SELECT id, url, lastChecked FROM feeds *)
Definition select_feeds (s : Store) : reply Feed :=
  Resolved (RowData (map feed_of_row (feeds s)), FieldPackets) s.

(** SELECT * FROM posts WHERE sent = FALSE ORDER BY pubDate DESC *)
Fixpoint insert_desc (r : PostRow) (l : list PostRow) : list PostRow :=
  match l with
  | [] => [r]
  | x :: xs =>
      if pr_pubDate x <=? pr_pubDate r then r :: x :: xs
      else x :: insert_desc r xs
  end.

Definition order_by_pubDate_desc (l : list PostRow) : list PostRow :=
  fold_right insert_desc [] l.

Definition select_unsent (s : Store) : reply Post :=
  Resolved
    (RowData
       (map post_of_row
          (order_by_pubDate_desc
             (filter (fun r => negb (pr_sent r)) (posts s)))),
     FieldPackets) s.

(** UPDATE posts SET sent = TRUE WHERE id IN (<posts.join(',')>).
    [join] writes nothing for an [undefined] element, which leaves a
    list that the server cannot parse. *)
Fixpoint numbers (ids : list (option Z)) : option (list Z) :=
  match ids with
  | [] => Some []
  | None :: _ => None
  | Some i :: rest =>
      match numbers rest with
      | Some l => Some (i :: l)
      | None => None
      end
  end.

Definition mark_row (l : list Z) (r : PostRow) : PostRow :=
  if existsb (Z.eqb (pr_id r)) l then
    mkPostRow (pr_id r) (pr_title r) (pr_link r) (pr_hash r) (pr_content r)
              (pr_pubDate r) (pr_feedId r) true
  else r.

Definition update_sent (ids : list (option Z)) (s : Store)
  : reply Empty_set :=
  match numbers ids with
  | None => Rejected ER_PARSE_ERROR
  | Some l =>
      Resolved
        (Header
           (mkOk 0
              (Z.of_nat
                 (List.length
                    (filter (fun r => existsb (Z.eqb (pr_id r)) l)
                       (posts s))))),
         FieldPackets)
        (mkStore (feeds s) (map (mark_row l) (posts s))
           (feeds_auto s) (posts_auto s))
  end.

(** ** mysql.ts: [sql] *)

(** The statement is never empty and the connection is open. A rejected
    query is logged and ends the process with status 1; otherwise the
    first component of what the query resolved to is returned. *)
Definition sql {A} (query : Store -> reply A) (s : Store)
  : outcome Store (results A) :=
  match query s with
  | Rejected _ => Exit 1 s
  | Resolved (res, _) s' => Return res s'
  end.

End Statements.

(** ** DatabaseService *)

Module DatabaseService.
Section Methods.
Variable env : Env.
Variable dev : bool.

(** Each post is inserted on its own; the [catch] of the loop body logs
    and goes on. [process.exit] inside [sql] is not an exception. *)
Fixpoint saveNewPosts (ps : list Post) (s : Store) : outcome Store unit :=
  match ps with
  | [] => Return tt s
  | post :: rest =>
      match sql (insert_ignore_post env post) s with
      | Return _ s' => saveNewPosts rest s'
      | Throw _ s' => saveNewPosts rest s'
      | Exit c s' => Exit c s'
      end
  end.

(** [const [rows] = (await sql(...)) || [[]]]: what [sql] returns is an
    object, hence truthy, and [rows] is its first element. In dev mode
    [posts[0]] or [posts.slice] then fails on a value that is no array;
    otherwise [posts || []] is returned. *)
Definition getUnsentPosts (s : Store) : outcome Store (shape Post) :=
  bind (sql select_unsent s) (fun res s' =>
    match array_first res with
    | None => Throw TypeError s'
    | Some rows =>
        if dev then Throw TypeError s'
        else
          match rows with
          | Some row => Return (Single row) s'
          | None => Return (Many []) s'
          end
    end).

(** [const [result] = (await sql(...)) || []], then [result.insertId].
    The [catch] logs and throws again. *)
Definition addFeed (u : string) (s : Store) : outcome Store Z :=
  bind (sql (insert_feed env u) s) (fun res s' =>
    match array_first res with
    | None => Throw TypeError s'
    | Some None => Throw TypeError s'
    | Some (Some row) => match row : Empty_set with end
    end).

(** [const [feeds] = (await sql(...)) || [[]]; return feeds] *)
Definition listFeeds (s : Store) : outcome Store (shape Feed) :=
  bind (sql select_feeds s) (fun res s' =>
    match array_first res with
    | None => Throw TypeError s'
    | Some None => Return Undefined s'
    | Some (Some row) => Return (Single row) s'
    end).

Definition markPostsAsSent (ids : list (option Z)) (s : Store)
  : outcome Store unit :=
  if (List.length ids =? 0)%nat then Return tt s
  else bind (sql (update_sent ids) s) (fun _ s' => Return tt s').

End Methods.
End DatabaseService.

(** The part of [DatabaseService] that [App.processFeeds] calls. *)
Record DbService := mkDb {
  db_listFeeds : Store -> outcome Store (shape Feed);
  db_saveNewPosts : list Post -> Store -> outcome Store unit;
  db_getUnsentPosts : Store -> outcome Store (shape Post);
  db_markPostsAsSent : list (option Z) -> Store -> outcome Store unit
}.

Definition databaseService (env : Env) (dev : bool) : DbService :=
  mkDb (DatabaseService.listFeeds)
       (DatabaseService.saveNewPosts env)
       (DatabaseService.getUnsentPosts dev)
       (DatabaseService.markPostsAsSent).

(** A collaborator that keeps the declared signatures to the letter:
    [listFeeds : Promise<Feed[]>] and [getUnsentPosts : Promise<Post[]>]
    resolve to the arrays that [sql] returns; the writers are the ones of
    [DatabaseService]. It lets [processFeeds] be run past its first
    statement. *)
Definition whole_array {A} (m : outcome Store (results A))
  : outcome Store (shape A) :=
  bind m (fun res s' =>
    match res with
    | RowData rows => Return (Many rows) s'
    | Header _ => Throw TypeError s'
    end).

Definition arrayReaders (env : Env) : DbService :=
  mkDb (fun s => whole_array (sql select_feeds s))
       (DatabaseService.saveNewPosts env)
       (fun s => whole_array (sql select_unsent s))
       (DatabaseService.markPostsAsSent).

(** ** The state of a run *)

Record World := mkWorld {
  store : Store;
  fetched : list (string * Z);     (* calls of parser.parseURL, latest first *)
  handed : list (list Post)        (* batches given to sesClient.send *)
}.

Definition lift {A} (m : Store -> outcome Store A) (w : World)
  : outcome World A :=
  match m (store w) with
  | Return a s => Return a (mkWorld s (fetched w) (handed w))
  | Throw e s => Throw e (mkWorld s (fetched w) (handed w))
  | Exit c s => Exit c (mkWorld s (fetched w) (handed w))
  end.

(** [x || d] on a string that may be missing: the empty string is falsy. *)
Definition or_else (x : option string) (d : string) : string :=
  match x with
  | Some s => if String.eqb s EmptyString then d else s
  | None => d
  end.

(** ** RssService *)

Module RssService.
Section Methods.
Variable env : Env.
Variable dev : bool.

Definition post_of_item (feedId : Z) (item : Item) : Post :=
  mkPost None
    (or_else (item_title item) EmptyString)
    (or_else (item_link item) EmptyString)
    (or_else (item_content item)
       (or_else (item_contentSnippet item) EmptyString))
    (match item_pubDate item with
     | Some s => if String.eqb s EmptyString then Date_now env
                 else Date_parse env s
     | None => Date_now env
     end)
    feedId
    false.

Definition fetchFeed (feedUrl : string) (feedId : Z) (w : World)
  : outcome World (list Post) :=
  let w' := mkWorld (store w) ((feedUrl, feedId) :: fetched w) (handed w) in
  match parseURL env feedUrl with
  | Some items =>
      let posts := map (post_of_item feedId) items in
      if dev then Return (firstn 1 posts) w' else Return posts w'
  | None => Return [] w'
  end.

End Methods.
End RssService.

(** ** EmailService *)

Module EmailService.
Section Methods.
Variable env : Env.
Variable dev : bool.

Definition sendNewPosts (ps : list Post) (w : World) : outcome World bool :=
  if (List.length ps =? 0)%nat then Return false w
  else if dev then Return true w
  else
    let w' := mkWorld (store w) (fetched w) (ps :: handed w) in
    match ses_send env ps with
    | SesResponds code =>
        Return (match code with Some c => c =? 200 | None => false end) w'
    | SesRejects => Throw SendError w'
    end.

End Methods.
End EmailService.

(** ** App *)

Module App.
Section Methods.
Variable env : Env.
Variable dev : bool.
Variable db : DbService.

(** The body of [for (const feed of feeds)], over the elements left. *)
Fixpoint feedLoop (fs : list Feed) (w : World) : outcome World unit :=
  match fs with
  | [] => Return tt w
  | feed :: rest =>
      match feed_id feed with
      | None => feedLoop rest w
      | Some i =>
          bind (RssService.fetchFeed env dev (url feed) i w) (fun ps w1 =>
          bind (lift (db_saveNewPosts db ps) w1) (fun _ w2 =>
          if dev then Return tt w2 else feedLoop rest w2))
      end
  end.

(** Lines 158 to 162: [.length] of a row object is [undefined], and
    [undefined > 0] is false. *)
Definition notify (w : World) : outcome World unit :=
  bind (lift (db_getUnsentPosts db) w) (fun unsentPosts w1 =>
    match unsentPosts with
    | Undefined => Throw TypeError w1
    | Single _ => Return tt w1
    | Many ps =>
        if (0 <? List.length ps)%nat then
          bind (EmailService.sendNewPosts env dev ps w1) (fun _ w2 =>
          lift (db_markPostsAsSent db (map post_id ps)) w2)
        else Return tt w1
    end).

Definition tryBlock (w : World) : outcome World unit :=
  bind (lift (db_listFeeds db) w) (fun feeds w1 =>
    match feeds with
    | Many fs => bind (feedLoop fs w1) (fun _ w2 => notify w2)
    | Single _ => Throw TypeError w1
    | Undefined => Throw TypeError w1
    end).

(** [catch (error)] logs; the promise of [processFeeds] resolves. *)
Definition processFeeds (w : World) : outcome World unit :=
  match tryBlock w with
  | Throw _ w' => Return tt w'
  | r => r
  end.

End Methods.
End App.

(** * Properties *)

(** ** Small facts used below *)

Lemma or_else_empty (x : option string) :
  or_else x EmptyString = match x with Some s => s | None => EmptyString end.
Proof.
  destruct x as [s|]; simpl; [|reflexivity].
  destruct (String.eqb_spec s EmptyString) as [->|]; reflexivity.
Qed.

Lemma In_firstn {A} (n : nat) (l : list A) (x : A) :
  In x (firstn n l) -> In x l.
Proof.
  revert l; induction n as [|n IH]; intros [|a l]; simpl; try tauto.
  intros [->|H]; [now left | right; now apply IH].
Qed.

Lemma world_eta (w : World) : mkWorld (store w) (fetched w) (handed w) = w.
Proof. now destruct w. Qed.

(** ** Feed Fetcher *)

(** C7. [fetchFeed] always resolves, and every candidate it resolves to comes
    from an item of the parsed feed, carries the requested feed id and
    [sent = false], takes the item's publish time when there is one and the
    current time when the item has none, and has the item's title and link,
    or the empty string where the item has none. *)
Theorem fetchFeed_candidates (env : Env) (dev : bool) (feedUrl : string)
    (feedId0 : Z) (w : World) :
  exists ps,
    RssService.fetchFeed env dev feedUrl feedId0 w
      = Return ps (mkWorld (store w) ((feedUrl, feedId0) :: fetched w)
                     (handed w))
    /\ Forall (fun p =>
         feedId p = feedId0 /\ sent p = false /\
         exists item items,
           parseURL env feedUrl = Some items /\ In item items /\
           (item_pubDate item = None -> pubDate p = Date_now env) /\
           (forall d, item_pubDate item = Some d -> d <> EmptyString ->
                      pubDate p = Date_parse env d) /\
           (item_title item = None -> title p = EmptyString) /\
           (forall t, item_title item = Some t -> title p = t) /\
           (item_link item = None -> link p = EmptyString) /\
           (forall l, item_link item = Some l -> link p = l)) ps.
Proof.
  unfold RssService.fetchFeed.
  destruct (parseURL env feedUrl) as [items|] eqn:Hparse.
  - exists (if dev then firstn 1 (map (RssService.post_of_item env feedId0) items)
            else map (RssService.post_of_item env feedId0) items).
    split; [now destruct dev|].
    apply Forall_forall; intros p Hp.
    assert (Hin : In p (map (RssService.post_of_item env feedId0) items))
      by (destruct dev; [now apply In_firstn in Hp | exact Hp]).
    apply in_map_iff in Hin; destruct Hin as [item [<- Hitem]].
    split; [reflexivity|]. split; [reflexivity|].
    exists item, items. split; [reflexivity|]. split; [exact Hitem|].
    unfold RssService.post_of_item; simpl; rewrite !or_else_empty.
    repeat split.
    + now intros ->.
    + intros d -> Hd.
      destruct (String.eqb_spec d EmptyString); [contradiction | reflexivity].
    + now intros ->.
    + now intros t ->.
    + now intros ->.
    + now intros l ->.
  - exists []. split; [reflexivity | constructor].
Qed.

Definition env_a : Env :=
  mkEnv (fun s => s)
        (fun _ => Some [mkItem (Some "X"%string) (Some "http://a.test/x"%string)
                          None None (Some "d20"%string);
                        mkItem None None None (Some "snippet"%string) None])
        30 (fun _ => 20) (fun _ => SesRejects).

Example fetchFeed_two_items :
  RssService.fetchFeed env_a false "http://a.test/feed.xml" 7
    (mkWorld empty_store [] [])
  = Return [mkPost None "X" "http://a.test/x" "" 20 7 false;
            mkPost None "" "" "snippet" 30 7 false]
      (mkWorld empty_store [("http://a.test/feed.xml"%string, 7)] []).
Proof. reflexivity. Qed.

(** ** Notifier *)

(** The claim C8 as it is written: on a batch that is not empty, [true]
    means that SES confirmed the delivery. *)
Definition true_only_when_confirmed : Prop :=
  forall env dev ps w w',
    ps <> [] ->
    EmailService.sendNewPosts env dev ps w = Return true w' ->
    ses_send env ps = SesResponds (Some 200).

Definition quiet_env (reply : sesReply) : Env :=
  mkEnv (fun s => s) (fun _ => None) 0 (fun _ => 0) (fun _ => reply).

Definition post_X : Post :=
  mkPost (Some 1) "X" "http://a.test/x" "" 20 1 false.

(** C8, counterexample: in dev mode a batch of one post yields [true] while
    nothing was given to SES (which would have refused it). *)
Lemma sendNewPosts_dev_true_unsent :
  EmailService.sendNewPosts (quiet_env SesRejects) true [post_X]
      (mkWorld empty_store [] [])
    = Return true (mkWorld empty_store [] [])
  /\ ~ true_only_when_confirmed.
Proof.
  split; [reflexivity|].
  intro H.
  specialize (H (quiet_env SesRejects) true [post_X]
                (mkWorld empty_store [] []) (mkWorld empty_store [] [])).
  simpl in H. discriminate H; [discriminate | reflexivity].
Qed.

(** C8, amended. On an empty batch [sendNewPosts] returns [false] and does
    nothing. On a batch that is not empty, outside dev mode, it gives the
    batch to SES and returns [true] exactly when SES answers with status 200,
    [false] on any other answer, and throws when SES rejects; in dev mode it
    returns [true] and sends nothing. *)
Theorem sendNewPosts_contract (env : Env) (dev : bool) (ps : list Post)
    (w : World) :
  EmailService.sendNewPosts env dev [] w = Return false w
  /\ (ps <> [] ->
      EmailService.sendNewPosts env true ps w = Return true w
      /\ let w' := mkWorld (store w) (fetched w) (ps :: handed w) in
         match ses_send env ps with
         | SesResponds (Some 200) =>
             EmailService.sendNewPosts env false ps w = Return true w'
         | SesResponds _ =>
             EmailService.sendNewPosts env false ps w = Return false w'
         | SesRejects =>
             EmailService.sendNewPosts env false ps w = Throw SendError w'
         end).
Proof.
  split; [reflexivity|].
  intros Hne. destruct ps as [|p ps]; [contradiction|].
  split; [reflexivity|].
  unfold EmailService.sendNewPosts; simpl.
  destruct (ses_send env (p :: ps)) as [|[c|]]; try reflexivity.
  destruct (Z.eqb_spec c 200) as [->|Hc]; [reflexivity|].
  destruct c as [|c|c]; try reflexivity.
  repeat (destruct c as [c|c|]; try reflexivity); contradiction.
Qed.

Lemma sendNewPosts_contract_witness :
  [post_X] <> []
  /\ EmailService.sendNewPosts (quiet_env (SesResponds (Some 200))) false
       [post_X] (mkWorld empty_store [] [])
     = Return true (mkWorld empty_store [] [[post_X]]).
Proof.
  split; [discriminate|].
  exact (proj2 (proj2 (sendNewPosts_contract
                         (quiet_env (SesResponds (Some 200))) false [post_X]
                         (mkWorld empty_store [] []))
                  ltac:(discriminate))).
Defined.

(** ** Pipeline Orchestrator: the loop over the feeds *)

(** [saveNewPosts] as a function on the store: one INSERT IGNORE per post. *)
Definition ingest (env : Env) (s : Store) (p : Post) : Store :=
  match insert_ignore_post env p s with
  | Resolved _ s' => s'
  | Rejected _ => s
  end.

Lemma saveNewPosts_ingest (env : Env) (ps : list Post) (s : Store) :
  DatabaseService.saveNewPosts env ps s = Return tt (fold_left (ingest env) ps s).
Proof.
  revert s; induction ps as [|p ps IH]; intros s; simpl; [reflexivity|].
  unfold sql, ingest, insert_ignore_post.
  destruct (post_conflict env p s); simpl; apply IH.
Qed.

(** One turn of the loop outside dev mode, as a function on the world. *)
Definition poll (env : Env) (w : World) (feed : Feed) : World :=
  match feed_id feed with
  | None => w
  | Some i =>
      mkWorld
        (fold_left (ingest env)
           (match parseURL env (url feed) with
            | Some items => map (RssService.post_of_item env i) items
            | None => []
            end)
           (store w))
        ((url feed, i) :: fetched w)
        (handed w)
  end.

Lemma feedLoop_poll (env : Env) (fs : list Feed) (w : World) :
  App.feedLoop env false (databaseService env false) fs w
    = Return tt (fold_left (poll env) fs w).
Proof.
  revert w; induction fs as [|feed fs IH]; intros w; simpl; [reflexivity|].
  unfold poll at 2.
  destruct (feed_id feed) as [i|]; [|apply IH].
  unfold RssService.fetchFeed, lift; simpl.
  destruct (parseURL env (url feed)) as [items|]; simpl;
    rewrite ?saveNewPosts_ingest; simpl; apply IH.
Qed.

Lemma fetched_fold_poll (env : Env) (fs : list Feed) (w : World) x :
  In x (fetched w) -> In x (fetched (fold_left (poll env) fs w)).
Proof.
  revert w; induction fs as [|feed fs IH]; intros w H; simpl; [exact H|].
  apply IH. unfold poll. destruct (feed_id feed); simpl; auto.
Qed.

(** C10. A feed whose id is undefined is passed over: the loop over a list
    of feeds that contains it does exactly what the loop over the list
    without it does, to the store, to the fetches made and to the mail
    given out, and it goes on with the feeds that follow. *)
Theorem feedLoop_skips_undefined_id (env : Env) (dev : bool) (db : DbService)
    (before after : list Feed) (feed : Feed) (w : World) :
  feed_id feed = None ->
  App.feedLoop env dev db (before ++ feed :: after) w
    = App.feedLoop env dev db (before ++ after) w.
Proof.
  intros Hid. revert w.
  induction before as [|g before IH]; intros w; simpl.
  - now rewrite Hid.
  - destruct (feed_id g) as [i|]; [|apply IH].
    destruct (RssService.fetchFeed env dev (url g) i w) as [ps w1|e w1|c w1];
      simpl; try reflexivity.
    destruct (lift (db_saveNewPosts db ps) w1) as [u w2|e w2|c w2];
      simpl; try reflexivity.
    destruct dev; [reflexivity | apply IH].
Qed.

Definition feed_a : Feed := mkFeed (Some 1) "http://a.test/feed.xml" None.
Definition feed_b : Feed := mkFeed (Some 2) "http://b.test/feed.xml" None.
Definition feed_noid : Feed := mkFeed None "http://n.test/feed.xml" None.

Definition item_Y : Item :=
  mkItem (Some "Y"%string) (Some "http://b.test/y"%string) None None None.

(** A world for examples: feed a is unreachable, feed b has one item. *)
Definition env_b (reply : sesReply) : Env :=
  mkEnv (fun s => s)
        (fun u => if String.eqb u "http://b.test/feed.xml"
                  then Some [item_Y] else None)
        30 (fun _ => 20) (fun _ => reply).

Definition two_feeds : Store :=
  mkStore [mkFeedRow 1 "http://a.test/feed.xml" "http://a.test/feed.xml" None;
           mkFeedRow 2 "http://b.test/feed.xml" "http://b.test/feed.xml" None]
          [] 3 1.

Lemma feedLoop_skips_undefined_id_witness :
  feed_id feed_noid = None
  /\ App.feedLoop (env_b SesRejects) false
       (databaseService (env_b SesRejects) false)
       ([feed_a] ++ feed_noid :: [feed_b]) (mkWorld two_feeds [] [])
     = App.feedLoop (env_b SesRejects) false
         (databaseService (env_b SesRejects) false)
         ([feed_a] ++ [feed_b]) (mkWorld two_feeds [] []).
Proof.
  split; [reflexivity|].
  apply (feedLoop_skips_undefined_id (env_b SesRejects) false
           (databaseService (env_b SesRejects) false)
           [feed_a] [feed_b] feed_noid (mkWorld two_feeds [] [])).
  reflexivity.
Defined.

(** The loop and a failed fetch. A feed that cannot be retrieved or parsed
    makes [fetchFeed] resolve
    to the empty sequence, not throw; the loop then goes on with the feeds
    that follow from an unchanged store (in dev mode it stops there, as it
    does after any first feed); and outside dev mode the loop always
    completes, having fetched every feed that has an id and persisted what
    each of them yielded. *)
Theorem fetch_failure_is_isolated (env : Env) (dev : bool) (feed : Feed)
    (i : Z) (rest : list Feed) (w : World) :
  parseURL env (url feed) = None ->
  feed_id feed = Some i ->
  let w1 := mkWorld (store w) ((url feed, i) :: fetched w) (handed w) in
  RssService.fetchFeed env dev (url feed) i w = Return [] w1
  /\ App.feedLoop env dev (databaseService env dev) (feed :: rest) w
       = (if dev then Return tt w1
          else App.feedLoop env dev (databaseService env dev) rest w1)
  /\ (forall fs w0,
        App.feedLoop env false (databaseService env false) fs w0
          = Return tt (fold_left (poll env) fs w0)
        /\ forall g j, In g fs -> feed_id g = Some j ->
             In (url g, j) (fetched (fold_left (poll env) fs w0))).
Proof.
  intros Hfail Hid w1. split; [|split].
  - unfold RssService.fetchFeed. now rewrite Hfail.
  - simpl. rewrite Hid. unfold RssService.fetchFeed. rewrite Hfail.
    now destruct dev.
  - intros fs w0. split; [apply feedLoop_poll|].
    revert w0; induction fs as [|f fs IH]; intros w0 g j Hin Hg;
      [contradiction|].
    simpl. destruct Hin as [->|Hin].
    + apply fetched_fold_poll. unfold poll. rewrite Hg. simpl. now left.
    + now apply IH.
Qed.

Lemma fetch_failure_is_isolated_witness :
  parseURL (env_b SesRejects) (url feed_a) = None
  /\ feed_id feed_a = Some 1
  /\ App.feedLoop (env_b SesRejects) false
       (databaseService (env_b SesRejects) false) [feed_a; feed_b]
       (mkWorld two_feeds [] [])
     = Return tt
         (mkWorld
            (mkStore (feeds two_feeds)
               [mkPostRow 1 "Y" "http://b.test/y" "Y" "" 30 2 false] 3 2)
            [("http://b.test/feed.xml"%string, 2);
             ("http://a.test/feed.xml"%string, 1)]
            []).
Proof.
  split; [reflexivity|]. split; [reflexivity|].
  destruct (fetch_failure_is_isolated (env_b SesRejects) false feed_a 1
              [feed_b] (mkWorld two_feeds [] []) eq_refl eq_refl)
    as [_ [_ H]].
  destruct (H [feed_a; feed_b] (mkWorld two_feeds [] [])) as [-> _].
  reflexivity.
Defined.

(** ** Pipeline Orchestrator: notification and marking *)

(** X16. With [DatabaseService] as it is written, [listFeeds] never resolves to
    an array: [for ... of] throws at once, the [catch] logs, and the tick
    ends having fetched, sent and marked nothing. *)
Remark processFeeds_with_databaseService (env : Env) (dev : bool) (w : World) :
  App.processFeeds env dev (databaseService env dev) w = Return tt w.
Proof.
  unfold App.processFeeds, App.tryBlock, lift; simpl.
  unfold DatabaseService.listFeeds, sql, select_feeds; simpl.
  destruct (feeds (store w)) as [|f fs]; simpl; now rewrite world_eta.
Qed.

(** X17. Outside dev mode, once the unsent posts arrive as a non-empty array:
    whatever status SES answers with, [markPostsAsSent] is called on their
    ids; only a rejected send leaves them unmarked. *)
Lemma notify_after_send (env : Env) (db : DbService) (w w1 : World)
    (ps : list Post) :
  lift (db_getUnsentPosts db) w = Return (Many ps) w1 ->
  ps <> [] ->
  let w2 := mkWorld (store w1) (fetched w1) (ps :: handed w1) in
  App.notify env false db w
  = match ses_send env ps with
    | SesResponds _ => lift (db_markPostsAsSent db (map post_id ps)) w2
    | SesRejects => Throw SendError w2
    end.
Proof.
  intros Hget Hne w2. unfold App.notify. rewrite Hget. simpl.
  destruct ps as [|p ps]; [contradiction|]. simpl.
  unfold EmailService.sendNewPosts. simpl.
  now destruct (ses_send env (p :: ps)).
Qed.

Definition post_Y_stored : Post :=
  mkPost (Some 1) "Y" "http://b.test/y" "" 30 2 false.

(** Lines 158 to 162 with a collaborator that hands over arrays. Feed b
    yields one new post; SES answers the batch with status 500, so
    [sendNewPosts] returns [false]; the post is marked as sent all the
    same. *)
Theorem processFeeds_marks_unconfirmed_batch :
  let env := env_b (SesResponds (Some 500)) in
  let s1 := mkStore (feeds two_feeds)
              [mkPostRow 1 "Y" "http://b.test/y" "Y" "" 30 2 false] 3 2 in
  let trace := [("http://b.test/feed.xml"%string, 2);
                ("http://a.test/feed.xml"%string, 1)] in
  EmailService.sendNewPosts env false [post_Y_stored] (mkWorld s1 trace [])
    = Return false (mkWorld s1 trace [[post_Y_stored]])
  /\ App.processFeeds env false (arrayReaders env) (mkWorld two_feeds [] [])
     = Return tt
         (mkWorld
            (mkStore (feeds two_feeds)
               [mkPostRow 1 "Y" "http://b.test/y" "Y" "" 30 2 true] 3 2)
            trace [[post_Y_stored]]).
Proof. split; reflexivity. Qed.

(** ** The tick of the program: App with its DatabaseService *)


Definition item_W : Item :=
  mkItem (Some "W"%string) (Some "http://c.test/w"%string) None None None.

(** Feed a is unreachable; feeds b and c have one item each. *)
Definition env_abc : Env :=
  mkEnv (fun s => s)
        (fun u => if String.eqb u "http://b.test/feed.xml" then Some [item_Y]
                  else if String.eqb u "http://c.test/feed.xml"
                       then Some [item_W] else None)
        30 (fun _ => 20) (fun _ => SesResponds (Some 200)).

Definition three_feeds : Store :=
  mkStore [mkFeedRow 1 "http://a.test/feed.xml" "http://a.test/feed.xml" None;
           mkFeedRow 2 "http://b.test/feed.xml" "http://b.test/feed.xml" None;
           mkFeedRow 3 "http://c.test/feed.xml" "http://c.test/feed.xml" None]
          [] 4 1.

(** C5, the tick at the failing input. Three feeds are registered; a cannot
    be fetched, b and c have one new item each. [listFeeds] resolves to the
    first row alone, [for ... of] throws on it, and the tick ends having
    fetched no feed and stored no post; the loop itself, handed the three
    feeds, would have stored the posts of b and c. *)
Theorem tick_fetches_no_feed :
  parseURL env_abc "http://a.test/feed.xml" = None
  /\ parseURL env_abc "http://b.test/feed.xml" = Some [item_Y]
  /\ parseURL env_abc "http://c.test/feed.xml" = Some [item_W]
  /\ DatabaseService.listFeeds three_feeds
     = Return (Single (mkFeed (Some 1) "http://a.test/feed.xml" None))
         three_feeds
  /\ App.processFeeds env_abc false (databaseService env_abc false)
       (mkWorld three_feeds [] [])
     = Return tt (mkWorld three_feeds [] [])
  /\ App.feedLoop env_abc false (databaseService env_abc false)
       (map feed_of_row (feeds three_feeds)) (mkWorld three_feeds [] [])
     = Return tt
         (mkWorld
            (mkStore (feeds three_feeds)
               [mkPostRow 1 "Y" "http://b.test/y" "Y" "" 30 2 false;
                mkPostRow 2 "W" "http://c.test/w" "W" "" 30 3 false] 4 3)
            [("http://c.test/feed.xml"%string, 3);
             ("http://b.test/feed.xml"%string, 2);
             ("http://a.test/feed.xml"%string, 1)]
            []).
Proof. repeat split. Qed.

(** ** Article Store: markPostsAsSent *)

Lemma numbers_map_Some (ids : list Z) : numbers (map Some ids) = Some ids.
Proof. induction ids as [|i ids IH]; simpl; [|rewrite IH]; reflexivity. Qed.

Lemma existsb_eqb_In (x : Z) (l : list Z) :
  existsb (Z.eqb x) l = true <-> In x l.
Proof.
  rewrite existsb_exists. split.
  - intros [y [Hy Heq]]. apply Z.eqb_eq in Heq. now subst.
  - intros H. exists x. split; [exact H | apply Z.eqb_refl].
Qed.

(** A row after the update, against the row before it. *)
Definition marked (ids : list Z) (r r' : PostRow) : Prop :=
  pr_id r' = pr_id r /\ pr_title r' = pr_title r /\ pr_link r' = pr_link r
  /\ pr_hash r' = pr_hash r /\ pr_content r' = pr_content r
  /\ pr_pubDate r' = pr_pubDate r /\ pr_feedId r' = pr_feedId r
  /\ (In (pr_id r) ids -> pr_sent r' = true)
  /\ (~ In (pr_id r) ids -> pr_sent r' = pr_sent r).

Lemma mark_row_marked (ids : list Z) (r : PostRow) :
  marked ids r (mark_row ids r).
Proof.
  unfold marked, mark_row.
  destruct (existsb (Z.eqb (pr_id r)) ids) eqn:E; simpl.
  - apply existsb_eqb_In in E. repeat split; auto; intros; contradiction.
  - assert (~ In (pr_id r) ids)
      by (intro H; apply existsb_eqb_In in H; congruence).
    repeat split; auto; intros; contradiction.
Qed.

Lemma marked_nil (l : list PostRow) : Forall2 (marked []) l l.
Proof.
  induction l as [|r l IH]; constructor; [|exact IH].
  unfold marked. repeat split; auto; intros [].
Qed.

(** C6. On the empty list [markPostsAsSent] returns with the store as it
    was. On a list of ids it always returns, whether or not the ids name
    rows that exist; the rows stay the same rows in the same order, a row
    whose id is in the list has [sent = true], and every other row and the
    feeds are as before. *)
Theorem markPostsAsSent_exactly (ids : list Z) (s : Store) :
  DatabaseService.markPostsAsSent [] s = Return tt s
  /\ exists s',
       DatabaseService.markPostsAsSent (map Some ids) s = Return tt s'
       /\ feeds s' = feeds s
       /\ Forall2 (marked ids) (posts s) (posts s').
Proof.
  split; [reflexivity|].
  destruct ids as [|i ids].
  - exists s. split; [reflexivity|]. split; [reflexivity | apply marked_nil].
  - unfold DatabaseService.markPostsAsSent, sql, update_sent.
    rewrite numbers_map_Some. simpl. eexists. split; [reflexivity|].
    simpl. split; [reflexivity|].
    induction (posts s) as [|r l IH]; simpl; constructor;
      [apply mark_row_marked | exact IH].
Qed.

(** ** Article Store: getUnsentPosts *)

Definition newer_first (a b : PostRow) : Prop := pr_pubDate b <= pr_pubDate a.

Lemma insert_desc_perm (r : PostRow) (l : list PostRow) :
  Permutation (r :: l) (insert_desc r l).
Proof.
  induction l as [|x xs IH]; simpl; [reflexivity|].
  destruct (pr_pubDate x <=? pr_pubDate r); [reflexivity|].
  rewrite perm_swap. now constructor.
Qed.

Lemma insert_desc_hd (a r : PostRow) (l : list PostRow) :
  HdRel newer_first a l -> newer_first a r ->
  HdRel newer_first a (insert_desc r l).
Proof.
  intros Hl Hr. destruct l as [|x xs]; simpl; [now constructor|].
  destruct (pr_pubDate x <=? pr_pubDate r); constructor;
    [exact Hr | now inversion Hl].
Qed.

Lemma insert_desc_sorted (r : PostRow) (l : list PostRow) :
  Sorted newer_first l -> Sorted newer_first (insert_desc r l).
Proof.
  induction l as [|x xs IH]; simpl; intros H; [repeat constructor|].
  inversion H as [|y ys Hs Hhd]; subst.
  destruct (Z.leb_spec (pr_pubDate x) (pr_pubDate r)) as [Hle|Hgt].
  - constructor; [exact H | constructor; exact Hle].
  - constructor; [now apply IH|].
    apply insert_desc_hd; [exact Hhd | unfold newer_first; lia].
Qed.

Lemma order_by_pubDate_desc_spec (l : list PostRow) :
  Permutation (order_by_pubDate_desc l) l
  /\ Sorted newer_first (order_by_pubDate_desc l).
Proof.
  induction l as [|r l [IHp IHs]]; simpl; [split; constructor|].
  split; [|now apply insert_desc_sorted].
  rewrite <- insert_desc_perm. now constructor.
Qed.

(** What [sql] returns for the SELECT: the unsent rows, all of them, latest
    first. *)
Remark select_unsent_rows (s : Store) :
  exists rows,
    sql select_unsent s = Return (RowData (map post_of_row rows)) s
    /\ Permutation rows (filter (fun r => negb (pr_sent r)) (posts s))
    /\ Sorted newer_first rows.
Proof.
  exists (order_by_pubDate_desc (filter (fun r => negb (pr_sent r)) (posts s))).
  split; [reflexivity | apply order_by_pubDate_desc_spec].
Qed.

(** What [getUnsentPosts] makes of it outside dev mode: the first of these
    rows as an object, or the empty array when there is none. *)
Remark getUnsentPosts_resolves (s : Store) :
  DatabaseService.getUnsentPosts false s
  = Return
      (match order_by_pubDate_desc
               (filter (fun r => negb (pr_sent r)) (posts s)) with
       | [] => Many []
       | r :: _ => Single (post_of_row r)
       end) s.
Proof.
  unfold DatabaseService.getUnsentPosts, sql, select_unsent; simpl.
  now destruct (order_by_pubDate_desc _).
Qed.

Definition three_posts : Store :=
  mkStore (feeds two_feeds)
    [mkPostRow 1 "X" "http://a.test/x" "X" "" 10 1 false;
     mkPostRow 2 "Y" "http://b.test/y" "Y" "" 20 2 false;
     mkPostRow 3 "Z" "http://b.test/z" "Z" "" 30 2 true]
    3 4.

(** C4, at the failing input. Two posts are unsent. The SELECT yields both,
    latest first; [getUnsentPosts] resolves to the first row alone, as an
    object and not as a sequence. *)
Theorem getUnsentPosts_first_row_only :
  let p1 := mkPost (Some 1) "X" "http://a.test/x" "" 10 1 false in
  let p2 := mkPost (Some 2) "Y" "http://b.test/y" "" 20 2 false in
  sql select_unsent three_posts = Return (RowData [p2; p1]) three_posts
  /\ DatabaseService.getUnsentPosts false three_posts
     = Return (Single p2) three_posts
  /\ DatabaseService.getUnsentPosts true three_posts
     = Throw TypeError three_posts.
Proof. repeat split. Qed.

(** ** Article Store: addFeed *)

Definition url_hash_known (env : Env) (u : string) (s : Store) : bool :=
  existsb (fun f => String.eqb (fr_url_hash f) (SHA2 env u)) (feeds s).

(** The claim C3 as it is written. *)
Definition addFeed_as_claimed : Prop :=
  forall env u s,
    (url_hash_known env u s = true ->
       (exists e s', DatabaseService.addFeed env u s = Throw e s')
       /\ feeds (state_of (DatabaseService.addFeed env u s)) = feeds s)
    /\ (url_hash_known env u s = false ->
          exists s', DatabaseService.addFeed env u s
                       = Return (feeds_auto s) s').

(** C3, counterexample: the url of feed a is registered once more. The
    query is refused, [sql] ends the process with status 1, and nothing is
    thrown to the caller of [addFeed]. *)
Lemma addFeed_duplicate_exits :
  url_hash_known (quiet_env SesRejects) "http://a.test/feed.xml" two_feeds
    = true
  /\ DatabaseService.addFeed (quiet_env SesRejects) "http://a.test/feed.xml"
       two_feeds = Exit 1 two_feeds
  /\ ~ addFeed_as_claimed.
Proof.
  split; [reflexivity|]. split; [reflexivity|].
  intros H.
  destruct (H (quiet_env SesRejects) "http://a.test/feed.xml"%string two_feeds)
    as [Hdup _].
  destruct (Hdup eq_refl) as [[e [s' Hthrow]] _].
  discriminate Hthrow.
Qed.

(** C3, amended. When the hash of the url is already in the table,
    [addFeed] adds no row and returns no id: the process ends with status 1
    inside [sql]. When it is not, the table gains exactly one row, for that
    url, under an id that no other feed has. *)
Theorem addFeed_store_effect (env : Env) (u : string) (s : Store) :
  (url_hash_known env u s = true ->
     DatabaseService.addFeed env u s = Exit 1 s)
  /\ (url_hash_known env u s = false ->
      Forall (fun f => fr_id f < feeds_auto s) (feeds s) ->
      let s' := state_of (DatabaseService.addFeed env u s) in
      feeds s' = feeds s ++ [mkFeedRow (feeds_auto s) u (SHA2 env u) None]
      /\ posts s' = posts s
      /\ ~ In (feeds_auto s) (map fr_id (feeds s))).
Proof.
  unfold url_hash_known, DatabaseService.addFeed, sql, insert_feed.
  split; intros ->; simpl; [reflexivity|].
  intros Hids. repeat split.
  intros Hin. apply in_map_iff in Hin. destruct Hin as [f [Hf Hin]].
  rewrite Forall_forall in Hids. specialize (Hids f Hin). lia.
Qed.

Lemma addFeed_store_effect_witness :
  (url_hash_known (quiet_env SesRejects) "http://a.test/feed.xml" two_feeds
     = true
   /\ DatabaseService.addFeed (quiet_env SesRejects) "http://a.test/feed.xml"
        two_feeds = Exit 1 two_feeds)
  /\ (url_hash_known (quiet_env SesRejects) "http://c.test/feed.xml" two_feeds
        = false
      /\ Forall (fun f => fr_id f < feeds_auto two_feeds) (feeds two_feeds)
      /\ feeds (state_of (DatabaseService.addFeed (quiet_env SesRejects)
                            "http://c.test/feed.xml" two_feeds))
         = feeds two_feeds
             ++ [mkFeedRow 3 "http://c.test/feed.xml" "http://c.test/feed.xml"
                   None]).
Proof.
  assert (Hlt : Forall (fun f => fr_id f < feeds_auto two_feeds)
                  (feeds two_feeds))
    by (repeat constructor).
  split.
  - split; [reflexivity|].
    exact (proj1 (addFeed_store_effect (quiet_env SesRejects)
                    "http://a.test/feed.xml" two_feeds) eq_refl).
  - split; [reflexivity|]. split; [exact Hlt|].
    exact (proj1 (proj2 (addFeed_store_effect (quiet_env SesRejects)
                           "http://c.test/feed.xml" two_feeds) eq_refl Hlt)).
Defined.

(** ** Article Store: saveNewPosts *)



(** [s'] has the feeds of [s] and the posts of [s] followed by new ones. *)
Definition extends (s s' : Store) : Prop :=
  feeds s' = feeds s /\ exists extra, posts s' = posts s ++ extra.

Lemma extends_refl (s : Store) : extends s s.
Proof. split; [reflexivity | exists []; now rewrite app_nil_r]. Qed.

Lemma extends_trans (a b c : Store) : extends a b -> extends b c -> extends a c.
Proof.
  intros [Hf1 [e1 H1]] [Hf2 [e2 H2]]. split; [congruence|].
  exists (e1 ++ e2). now rewrite H2, H1, app_assoc.
Qed.

Lemma ingest_extends (env : Env) (s : Store) (p : Post) :
  extends s (ingest env s p).
Proof.
  unfold ingest, insert_ignore_post.
  destruct (post_conflict env p s); [apply extends_refl|].
  split; [reflexivity | eexists; reflexivity].
Qed.

Lemma fold_ingest_extends (env : Env) (ps : list Post) (s : Store) :
  extends s (fold_left (ingest env) ps s).
Proof.
  revert s; induction ps as [|p ps IH]; intros s; simpl;
    [apply extends_refl|].
  eapply extends_trans; [apply ingest_extends | apply IH].
Qed.





Lemma existsb_hash_In (h : string) (l : list PostRow) :
  existsb (fun r => String.eqb (pr_hash r) h) l = true
  <-> In h (map pr_hash l).
Proof.
  rewrite existsb_exists, in_map_iff. split.
  - intros [r [Hr E]]. apply String.eqb_eq in E. now exists r.
  - intros [r [E Hr]]. exists r. split; [exact Hr | now apply String.eqb_eq].
Qed.


















(** * The rest of DatabaseService *)

(** ** removeFeed *)

Section RemoveFeed.
(** The comparison [url = ?] of the server, under the collation of the
    column. *)
Variable same : string -> string -> bool.

(** DELETE FROM feeds WHERE url = ?. The foreign key of [posts.feedId] is
    ON DELETE CASCADE: the posts of a deleted feed go with it. *)
Definition delete_feed (u : string) (s : Store) : reply Empty_set :=
  let gone := map fr_id (filter (fun f => same (fr_url f) u) (feeds s)) in
  Resolved
    (Header (mkOk 0 (Z.of_nat (List.length gone))), FieldPackets)
    (mkStore
       (filter (fun f => negb (same (fr_url f) u)) (feeds s))
       (filter (fun r => negb (existsb (Z.eqb (pr_feedId r)) gone)) (posts s))
       (feeds_auto s) (posts_auto s)).

(** [const [result] = (await sql(...)) || []], then
    [result.affectedRows > 0]. The [catch] logs and throws again. *)
Definition removeFeed (u : string) (s : Store) : outcome Store bool :=
  bind (sql (delete_feed u) s) (fun res s' =>
    match array_first res with
    | None => Throw TypeError s'
    | Some None => Throw TypeError s'
    | Some (Some row) => match row : Empty_set with end
    end).

End RemoveFeed.

(** ** The calls that write, seen as requests *)

Inductive request :=
| ReqSaveNewPosts (ps : list Post)
| ReqMarkPostsAsSent (ids : list (option Z))
| ReqAddFeed (u : string)
| ReqRemoveFeed (u : string).

(** The store a call leaves behind, however the call ends. *)
Definition serve (env : Env) (same : string -> string -> bool)
    (r : request) (s : Store) : Store :=
  match r with
  | ReqSaveNewPosts ps => state_of (DatabaseService.saveNewPosts env ps s)
  | ReqMarkPostsAsSent ids => state_of (DatabaseService.markPostsAsSent ids s)
  | ReqAddFeed u => state_of (DatabaseService.addFeed env u s)
  | ReqRemoveFeed u => state_of (removeFeed same u s)
  end.

(** What the keys of [createTables] promise: ids are distinct and below the
    next AUTO_INCREMENT value, [url_hash], [hash] and [link] are distinct,
    the hashes are the ones the triggers compute, and every post belongs to
    a feed that exists. *)
Definition consistent (env : Env) (s : Store) : Prop :=
  (NoDup (map fr_id (feeds s))
   /\ Forall (fun f => fr_id f < feeds_auto s) (feeds s)
   /\ NoDup (map fr_url_hash (feeds s))
   /\ Forall (fun f => fr_url_hash f = SHA2 env (fr_url f)) (feeds s))
  /\ (NoDup (map pr_id (posts s))
      /\ Forall (fun r => pr_id r < posts_auto s) (posts s)
      /\ NoDup (map pr_hash (posts s))
      /\ NoDup (map pr_link (posts s))
      /\ Forall (fun r => pr_hash r = SHA2 env (pr_title r)) (posts s))
  /\ Forall (fun r => In (pr_feedId r) (map fr_id (feeds s))) (posts s).

(** Deleting rows keeps a key distinct. *)
Lemma NoDup_map_filter (Row K : Type) (key : Row -> K) (keep : Row -> bool)
    (rows : list Row) (Hkey : NoDup (map key rows)) :
  NoDup (map key (filter keep rows)).
Proof.
  induction rows as [|row rows IH]; simpl in *; [constructor|].
  inversion Hkey as [|x xs Hnotin Hnd]; subst.
  destruct (keep row); simpl; [constructor|]; auto.
  intros Hin. apply Hnotin. apply in_map_iff in Hin.
  destruct Hin as [b [E Hb]]. apply filter_In in Hb.
  apply in_map_iff. exists b. tauto.
Qed.

Lemma Forall_filter_keep {A} (P : A -> Prop) (p : A -> bool) (l : list A) :
  Forall P l -> Forall P (filter p l).
Proof.
  rewrite !Forall_forall. intros H x Hx. apply filter_In in Hx. now apply H.
Qed.

Lemma NoDup_map_snoc {A B} (f : A -> B) (l : list A) (x : A) :
  NoDup (map f l) -> ~ In (f x) (map f l) -> NoDup (map f (l ++ [x])).
Proof.
  intros Hnd Hx. rewrite map_app. simpl.
  apply NoDup_app; [exact Hnd | repeat constructor; now intros [] |].
  intros b Hb [<-|[]]. contradiction.
Qed.

Lemma lt_not_In_ids {A} (f : A -> Z) (l : list A) (n : Z) :
  Forall (fun a => f a < n) l -> ~ In n (map f l).
Proof.
  intros H Hin. apply in_map_iff in Hin. destruct Hin as [a [E Ha]].
  rewrite Forall_forall in H. specialize (H a Ha). lia.
Qed.

Lemma Forall_lt_succ {A} (f : A -> Z) (l : list A) (n : Z) :
  Forall (fun a => f a < n) l -> Forall (fun a => f a < n + 1) l.
Proof. apply Forall_impl. intros a H. lia. Qed.

Lemma existsb_link_In (k : string) (l : list PostRow) :
  existsb (fun r => String.eqb (pr_link r) k) l = true
  <-> In k (map pr_link l).
Proof.
  rewrite existsb_exists, in_map_iff. split.
  - intros [r [Hr E]]. apply String.eqb_eq in E. now exists r.
  - intros [r [E Hr]]. exists r. split; [exact Hr | now apply String.eqb_eq].
Qed.

Lemma existsb_feed_In (i : Z) (l : list FeedRow) :
  existsb (fun f => fr_id f =? i) l = true <-> In i (map fr_id l).
Proof.
  rewrite existsb_exists, in_map_iff. split.
  - intros [f [Hf E]]. apply Z.eqb_eq in E. now exists f.
  - intros [f [E Hf]]. exists f. split; [exact Hf | now apply Z.eqb_eq].
Qed.

Lemma existsb_url_hash_In (h : string) (l : list FeedRow) :
  existsb (fun f => String.eqb (fr_url_hash f) h) l = true
  <-> In h (map fr_url_hash l).
Proof.
  rewrite existsb_exists, in_map_iff. split.
  - intros [f [Hf E]]. apply String.eqb_eq in E. now exists f.
  - intros [f [E Hf]]. exists f. split; [exact Hf | now apply String.eqb_eq].
Qed.

Lemma not_true_not_In {P : Prop} (b : bool) :
  (b = true <-> P) -> b = false -> ~ P.
Proof. intros H E HP. apply H in HP. congruence. Qed.

Lemma consistent_ingest (env : Env) (s : Store) (p : Post) :
  consistent env s -> consistent env (ingest env s p).
Proof.
  intros H. unfold ingest, insert_ignore_post.
  destruct (post_conflict env p s) eqn:E; [exact H|].
  destruct H as [Hf [[Hi [Hlt [Hh [Hl Hs]]]] Hfk]].
  unfold post_conflict in E.
  apply orb_false_elim in E. destruct E as [E Efk].
  apply orb_false_elim in E. destruct E as [Eh El].
  apply negb_false_iff in Efk.
  split; [exact Hf|]. simpl. split; [|].
  - split; [|split; [|split; [|split]]].
    + apply NoDup_map_snoc; [exact Hi|]. simpl. now apply lt_not_In_ids.
    + apply Forall_app. split; [now apply Forall_lt_succ|].
      repeat constructor. simpl. lia.
    + apply NoDup_map_snoc; [exact Hh|]. simpl.
      exact (not_true_not_In _ (existsb_hash_In _ _) Eh).
    + apply NoDup_map_snoc; [exact Hl|]. simpl.
      exact (not_true_not_In _ (existsb_link_In _ _) El).
    + apply Forall_app. split; [exact Hs | now repeat constructor].
  - apply Forall_app. split; [exact Hfk|].
    repeat constructor. simpl. now apply existsb_feed_In.
Qed.

Lemma consistent_saveNewPosts (env : Env) (ps : list Post) (s : Store) :
  consistent env s ->
  consistent env (state_of (DatabaseService.saveNewPosts env ps s)).
Proof.
  rewrite saveNewPosts_ingest. simpl.
  revert s; induction ps as [|p ps IH]; intros s H; simpl; [exact H|].
  apply IH. now apply consistent_ingest.
Qed.

Lemma map_mark_row {B} (f : PostRow -> B) (l : list Z) (rows : list PostRow) :
  (forall r, f (mark_row l r) = f r) ->
  map f (map (mark_row l) rows) = map f rows.
Proof.
  intros H. rewrite map_map. apply map_ext. exact H.
Qed.

Lemma mark_row_fields (l : list Z) (r : PostRow) :
  pr_id (mark_row l r) = pr_id r /\ pr_hash (mark_row l r) = pr_hash r
  /\ pr_link (mark_row l r) = pr_link r
  /\ pr_title (mark_row l r) = pr_title r
  /\ pr_feedId (mark_row l r) = pr_feedId r.
Proof. unfold mark_row. destruct (existsb _ l); simpl; tauto. Qed.

Lemma Forall_map_mark_row (P : PostRow -> Prop) (l : list Z)
    (rows : list PostRow) :
  (forall r, P r -> P (mark_row l r)) ->
  Forall P rows -> Forall P (map (mark_row l) rows).
Proof.
  intros H. induction 1; simpl; constructor; auto.
Qed.

Lemma consistent_markPostsAsSent (env : Env) (ids : list (option Z))
    (s : Store) :
  consistent env s ->
  consistent env (state_of (DatabaseService.markPostsAsSent ids s)).
Proof.
  intros H. unfold DatabaseService.markPostsAsSent.
  destruct (List.length ids =? 0)%nat; [exact H|].
  unfold sql, update_sent. destruct (numbers ids) as [l|]; [|exact H].
  simpl. destruct H as [Hf [[Hi [Hlt [Hh [Hl Hs]]]] Hfk]].
  split; [exact Hf|]. simpl. split.
  - rewrite !map_mark_row by (intros r; apply mark_row_fields).
    split; [exact Hi|]. split; [|split; [exact Hh|split; [exact Hl|]]].
    + apply Forall_map_mark_row; [|exact Hlt].
      intros r. now rewrite (proj1 (mark_row_fields l r)).
    + apply Forall_map_mark_row; [|exact Hs].
      intros r. destruct (mark_row_fields l r) as [_ [-> [_ [-> _]]]]. auto.
  - apply Forall_map_mark_row; [|exact Hfk].
    intros r. destruct (mark_row_fields l r) as [_ [_ [_ [_ ->]]]]. auto.
Qed.

Lemma consistent_addFeed (env : Env) (u : string) (s : Store) :
  consistent env s ->
  consistent env (state_of (DatabaseService.addFeed env u s)).
Proof.
  intros H. unfold DatabaseService.addFeed, sql, insert_feed.
  destruct (existsb _ (feeds s)) eqn:E; [exact H|].
  simpl. destruct H as [[Hi [Hlt [Hh Hs]]] [Hp Hfk]].
  split; [|split; [exact Hp|]]; simpl.
  - split; [|split; [|split]].
    + apply NoDup_map_snoc; [exact Hi|]. simpl. now apply lt_not_In_ids.
    + apply Forall_app. split; [now apply Forall_lt_succ|].
      repeat constructor. simpl. lia.
    + apply NoDup_map_snoc; [exact Hh|]. simpl.
      exact (not_true_not_In _ (existsb_url_hash_In _ _) E).
    + apply Forall_app. split; [exact Hs | now repeat constructor].
  - eapply Forall_impl; [|exact Hfk]. intros r Hr. simpl in Hr.
    rewrite map_app. apply in_or_app. now left.
Qed.

Lemma consistent_removeFeed (env : Env) (same : string -> string -> bool)
    (u : string) (s : Store) :
  consistent env s -> consistent env (state_of (removeFeed same u s)).
Proof.
  intros [[Hi [Hlt [Hh Hs]]] [[Pi [Plt [Ph [Pl Ps]]]] Hfk]].
  unfold removeFeed, sql, delete_feed. simpl.
  split; [|split]; simpl.
  - split; [now apply NoDup_map_filter|].
    split; [now apply Forall_filter_keep|].
    split; [now apply NoDup_map_filter | now apply Forall_filter_keep].
  - split; [now apply NoDup_map_filter|].
    split; [now apply Forall_filter_keep|].
    split; [now apply NoDup_map_filter|].
    split; [now apply NoDup_map_filter | now apply Forall_filter_keep].
  - apply Forall_forall. intros r Hr. apply filter_In in Hr.
    destruct Hr as [Hr Hkeep]. apply negb_true_iff in Hkeep.
    rewrite Forall_forall in Hfk. specialize (Hfk r Hr).
    apply in_map_iff in Hfk. destruct Hfk as [f [Ef Hf]].
    apply in_map_iff. exists f. split; [exact Ef|].
    apply filter_In. split; [exact Hf|].
    destruct (same (fr_url f) u) eqn:Eu; [|reflexivity].
    exfalso.
    assert (Hgone : existsb (Z.eqb (pr_feedId r))
                      (map fr_id (filter (fun f => same (fr_url f) u)
                                    (feeds s))) = true).
    { apply existsb_eqb_In. apply in_map_iff. exists f.
      split; [exact Ef|]. apply filter_In. now split. }
    congruence.
Qed.

(** X1. Every store that the writing calls of [DatabaseService] can build
    from the empty one, in any order and however each call ends, keeps the
    keys of the schema: ids, url hashes, title hashes and links are distinct,
    and every post belongs to a feed that is still there. *)
Theorem reachable_store_consistent (env : Env)
    (same : string -> string -> bool) (rs : list request) :
  consistent env (fold_left (fun s r => serve env same r s) rs empty_store).
Proof.
  assert (H0 : consistent env empty_store)
    by (unfold consistent, empty_store; simpl; repeat split; constructor).
  revert H0. generalize empty_store.
  induction rs as [|r rs IH]; intros s H; simpl; [exact H|].
  apply IH. destruct r as [ps|ids|u|u]; simpl.
  - now apply consistent_saveNewPosts.
  - now apply consistent_markPostsAsSent.
  - now apply consistent_addFeed.
  - now apply consistent_removeFeed.
Qed.

(** X2. [removeFeed] never resolves: the DELETE is run, and the array
    pattern applied to its header then throws. In the store it leaves, the
    feeds are the former feeds whose url does not match, and the posts are
    the former posts that belong to no matching feed. *)
Theorem removeFeed_deletes_then_throws (same : string -> string -> bool)
    (u : string) (s : Store) :
  exists s',
    removeFeed same u s = Throw TypeError s'
    /\ (forall f, In f (feeds s') <->
                  In f (feeds s) /\ same (fr_url f) u = false)
    /\ (forall r, In r (posts s') <->
                  In r (posts s)
                  /\ ~ exists f, In f (feeds s) /\ same (fr_url f) u = true
                                 /\ fr_id f = pr_feedId r).
Proof.
  unfold removeFeed, sql, delete_feed. simpl. eexists.
  split; [reflexivity|]. simpl. split.
  - intros f. rewrite filter_In, negb_true_iff. tauto.
  - intros r. rewrite filter_In, negb_true_iff. split.
    + intros [Hr Hk]. split; [exact Hr|]. intros [f [Hf [Hu Hid]]].
      assert (Hin : existsb (Z.eqb (pr_feedId r))
                      (map fr_id (filter (fun f => same (fr_url f) u)
                                    (feeds s))) = true).
      { apply existsb_eqb_In. apply in_map_iff. exists f.
        split; [exact Hid|]. apply filter_In. now split. }
      congruence.
    + intros [Hr Hno]. split; [exact Hr|].
      destruct (existsb _ _) eqn:E; [|reflexivity].
      exfalso. apply Hno. apply existsb_eqb_In in E.
      apply in_map_iff in E. destruct E as [f [Hid Hf]].
      apply filter_In in Hf. exists f. tauto.
Qed.

Lemma filter_all_true {A} (p : A -> bool) (l : list A) :
  (forall a, In a l -> p a = true) -> filter p l = l.
Proof.
  induction l as [|a l IH]; simpl; intros H; [reflexivity|].
  rewrite (H a (or_introl eq_refl)). f_equal. apply IH. auto.
Qed.

Lemma filter_all_false {A} (p : A -> bool) (l : list A) :
  (forall a, In a l -> p a = false) -> filter p l = [].
Proof.
  induction l as [|a l IH]; simpl; intros H; [reflexivity|].
  rewrite (H a (or_introl eq_refl)). apply IH. auto.
Qed.

(** X3. [removeFeed] on a url that no feed has changes nothing in the store
    (and throws all the same). *)
Theorem removeFeed_unknown_url (same : string -> string -> bool)
    (u : string) (s : Store) :
  (forall f, In f (feeds s) -> same (fr_url f) u = false) ->
  removeFeed same u s = Throw TypeError s.
Proof.
  intros H. unfold removeFeed, sql, delete_feed. simpl.
  rewrite (filter_all_false (fun f => same (fr_url f) u)) by exact H.
  simpl. rewrite !filter_all_true; [now destruct s | auto |].
  intros f Hf. now rewrite H.
Qed.

Lemma removeFeed_unknown_url_witness :
  removeFeed String.eqb "http://c.test/feed.xml" two_feeds
  = Throw TypeError two_feeds.
Proof.
  apply (removeFeed_unknown_url String.eqb "http://c.test/feed.xml" two_feeds).
  intros f [<-|[<-|[]]]; reflexivity.
Defined.

(** ** The sent flag *)

Lemma mark_row_sent (l : list Z) (r : PostRow) :
  pr_sent r = true -> mark_row l r = r.
Proof.
  unfold mark_row. intros H. destruct (existsb _ l); [|reflexivity].
  destruct r; simpl in *. now subst.
Qed.

Lemma removeFeed_keeps_or_cascades (same : string -> string -> bool)
    (u : string) (s : Store) (row : PostRow) :
  In row (posts s) ->
  In row (posts (state_of (removeFeed same u s)))
  \/ exists f, In f (feeds s) /\ same (fr_url f) u = true
               /\ fr_id f = pr_feedId row.
Proof.
  intros Hin. unfold removeFeed, sql, delete_feed. simpl.
  destruct (existsb (Z.eqb (pr_feedId row))
              (map fr_id (filter (fun f => same (fr_url f) u) (feeds s))))
    eqn:E.
  - right. apply existsb_eqb_In in E. apply in_map_iff in E.
    destruct E as [f [Hid Hf]]. apply filter_In in Hf. exists f. tauto.
  - left. apply filter_In. split; [exact Hin | now rewrite E].
Qed.

(** X4. No call resets the sent flag. A stored post that is marked as sent
    is still there, unchanged, after any writing call, unless the call is
    [removeFeed] and deleted the feed the post belongs to. *)
Theorem sent_is_never_reset (env : Env) (same : string -> string -> bool)
    (r : request) (s : Store) (row : PostRow) :
  In row (posts s) -> pr_sent row = true ->
  In row (posts (serve env same r s))
  \/ exists u f, r = ReqRemoveFeed u /\ In f (feeds s)
                 /\ same (fr_url f) u = true /\ fr_id f = pr_feedId row.
Proof.
  intros Hin Hsent. destruct r as [ps|ids|u|u]; simpl.
  - left. rewrite saveNewPosts_ingest. simpl.
    destruct (fold_ingest_extends env ps s) as [_ [extra ->]].
    apply in_or_app. now left.
  - left. unfold DatabaseService.markPostsAsSent.
    destruct (List.length ids =? 0)%nat; [exact Hin|].
    unfold sql, update_sent. destruct (numbers ids) as [l|]; [|exact Hin].
    simpl. apply in_map_iff. exists row. split; [|exact Hin].
    now apply mark_row_sent.
  - left. unfold DatabaseService.addFeed, sql, insert_feed.
    now destruct (existsb _ (feeds s)).
  - destruct (removeFeed_keeps_or_cascades same u s row Hin) as [H|[f Hf]].
    + now left.
    + right. now exists u, f.
Qed.

Definition row_Z : PostRow :=
  mkPostRow 3 "Z" "http://b.test/z" "Z" "" 30 2 true.

Lemma sent_is_never_reset_witness :
  In row_Z (posts three_posts) /\ pr_sent row_Z = true
  /\ (In row_Z (posts (serve (quiet_env SesRejects) String.eqb
                         (ReqMarkPostsAsSent [Some 1; Some 3]) three_posts))
      \/ exists u f, ReqMarkPostsAsSent [Some 1; Some 3] = ReqRemoveFeed u
                     /\ In f (feeds three_posts)
                     /\ String.eqb (fr_url f) u = true
                     /\ fr_id f = pr_feedId row_Z).
Proof.
  assert (Hin : In row_Z (posts three_posts)) by (simpl; tauto).
  split; [exact Hin|]. split; [reflexivity|].
  exact (sent_is_never_reset (quiet_env SesRejects) String.eqb
           (ReqMarkPostsAsSent [Some 1; Some 3]) three_posts row_Z
           Hin eq_refl).
Defined.

(** The rows of the SELECT of [getUnsentPosts], as posts. *)
Definition unsent_posts (s : Store) : list Post :=
  map post_of_row
    (order_by_pubDate_desc (filter (fun r => negb (pr_sent r)) (posts s))).

Lemma numbers_ids_of_rows (rows : list PostRow) :
  numbers (map post_id (map post_of_row rows)) = Some (map pr_id rows).
Proof.
  induction rows as [|r rows IH]; simpl; [reflexivity|]. now rewrite IH.
Qed.

Lemma filter_unsent_after_mark (l : list Z) (rows : list PostRow) :
  (forall r, In r rows -> pr_sent r = false -> In (pr_id r) l) ->
  filter (fun r => negb (pr_sent r)) (map (mark_row l) rows) = [].
Proof.
  intros H. apply filter_all_false. intros r' Hr'.
  apply in_map_iff in Hr'. destruct Hr' as [r [<- Hr]].
  unfold mark_row. destruct (existsb (Z.eqb (pr_id r)) l) eqn:E;
    [reflexivity|].
  destruct (pr_sent r) eqn:Es; [reflexivity|].
  apply H in Hr; [|exact Es]. apply existsb_eqb_In in Hr. congruence.
Qed.

(** X5. Marking what the SELECT of unsent posts yields empties it: after
    [markPostsAsSent] on the ids of all rows that the query of
    [getUnsentPosts] returns, which always succeeds, the same query returns
    no row, and the feeds are untouched. *)
Theorem mark_all_unsent_leaves_none (s : Store) :
  sql select_unsent s = Return (RowData (unsent_posts s)) s
  /\ exists s',
       DatabaseService.markPostsAsSent (map post_id (unsent_posts s)) s
         = Return tt s'
       /\ sql select_unsent s' = Return (RowData []) s'
       /\ feeds s' = feeds s.
Proof.
  split; [reflexivity|].
  unfold DatabaseService.markPostsAsSent, unsent_posts.
  set (rows := order_by_pubDate_desc
                 (filter (fun r => negb (pr_sent r)) (posts s))).
  assert (Hperm := proj1 (order_by_pubDate_desc_spec
                            (filter (fun r => negb (pr_sent r)) (posts s)))).
  fold rows in Hperm.
  destruct rows as [|r0 rows'] eqn:Erows.
  - exists s. simpl. split; [reflexivity|]. split; [|reflexivity].
    unfold sql, select_unsent. fold rows. now rewrite Erows.
  - rewrite <- Erows in *. simpl.
    replace (List.length (map post_id (map post_of_row rows)) =? 0)%nat
      with false by (rewrite Erows; reflexivity).
    unfold sql at 1, update_sent. rewrite numbers_ids_of_rows. simpl.
    eexists. split; [reflexivity|]. split; [|reflexivity].
    unfold sql, select_unsent. simpl.
    rewrite filter_unsent_after_mark; [reflexivity|].
    intros r Hr Hs. apply in_map.
    apply (Permutation_in r (Permutation_sym Hperm)).
    apply filter_In. split; [exact Hr | now rewrite Hs].
Qed.

Lemma mark_row_twice (l : list Z) (r : PostRow) :
  mark_row l (mark_row l r) = mark_row l r.
Proof.
  unfold mark_row at 2.
  destruct (existsb (Z.eqb (pr_id r)) l) eqn:E; unfold mark_row; simpl;
    now rewrite E.
Qed.

(** X6. Repeating [markPostsAsSent] with the same ids ends as the first call
    did and leaves the store the first call left. *)
Theorem markPostsAsSent_twice (ids : list (option Z)) (s : Store) :
  DatabaseService.markPostsAsSent ids
    (state_of (DatabaseService.markPostsAsSent ids s))
  = DatabaseService.markPostsAsSent ids s.
Proof.
  unfold DatabaseService.markPostsAsSent.
  destruct (List.length ids =? 0)%nat; [reflexivity|].
  unfold sql, update_sent. destruct (numbers ids) as [l|]; [|reflexivity].
  simpl. rewrite map_map.
  rewrite (map_ext _ _ (mark_row_twice l)). reflexivity.
Qed.

Lemma numbers_undefined (ids : list (option Z)) :
  In None ids -> numbers ids = None.
Proof.
  induction ids as [|[i|] ids IH]; simpl; intros H;
    [contradiction| |reflexivity].
  destruct H as [H|H]; [discriminate|]. now rewrite IH.
Qed.

(** X7. When one of the ids handed to [markPostsAsSent] is undefined, the
    statement that [join] builds is refused by the server: [sql] ends the
    process with status 1 and no post is marked. *)
Theorem markPostsAsSent_undefined_id (ids : list (option Z)) (s : Store) :
  In None ids -> DatabaseService.markPostsAsSent ids s = Exit 1 s.
Proof.
  intros H. unfold DatabaseService.markPostsAsSent.
  destruct ids as [|i ids]; [contradiction|]. simpl Nat.eqb. cbv iota.
  unfold sql, update_sent. now rewrite (numbers_undefined _ H).
Qed.

Lemma markPostsAsSent_undefined_id_witness :
  In None [Some 1; None]
  /\ DatabaseService.markPostsAsSent [Some 1; None] three_posts
     = Exit 1 three_posts.
Proof.
  assert (H : In (@None Z) [Some 1; None]) by (simpl; tauto).
  split; [exact H|].
  exact (markPostsAsSent_undefined_id [Some 1; None] three_posts H).
Defined.

(** X8. Outside dev mode [getUnsentPosts] leaves the store alone and
    resolves either to the empty array, exactly when no stored post is
    unsent, or to one post alone: a stored, unsent post that no unsent post
    is newer than. *)
Theorem getUnsentPosts_latest_unsent (s : Store) :
  (DatabaseService.getUnsentPosts false s = Return (Many []) s
   /\ forall r, In r (posts s) -> pr_sent r = true)
  \/ exists row,
       DatabaseService.getUnsentPosts false s
         = Return (Single (post_of_row row)) s
       /\ In row (posts s) /\ pr_sent row = false
       /\ forall r, In r (posts s) -> pr_sent r = false ->
                    pr_pubDate r <= pr_pubDate row.
Proof.
  rewrite getUnsentPosts_resolves.
  destruct (order_by_pubDate_desc_spec
              (filter (fun r => negb (pr_sent r)) (posts s))) as [Hperm Hsort].
  destruct (order_by_pubDate_desc _) as [|row rows].
  - left. split; [reflexivity|]. intros r Hr.
    destruct (pr_sent r) eqn:E; [reflexivity|]. exfalso.
    apply (Permutation_nil_cons (l := []) (x := r)).
    assert (Hin : In r (filter (fun r => negb (pr_sent r)) (posts s)))
      by (apply filter_In; split; [exact Hr | now rewrite E]).
    apply (Permutation_in r (Permutation_sym Hperm)) in Hin. contradiction.
  - right. exists row. split; [reflexivity|].
    assert (Hrow : In row (filter (fun r => negb (pr_sent r)) (posts s)))
      by (apply (Permutation_in row Hperm); now left).
    apply filter_In in Hrow. destruct Hrow as [Hin Hs].
    apply negb_true_iff in Hs. split; [exact Hin|]. split; [exact Hs|].
    intros r Hr Er.
    assert (Hin' : In r (row :: rows)).
    { apply (Permutation_in r (Permutation_sym Hperm)).
      apply filter_In. split; [exact Hr | now rewrite Er]. }
    destruct Hin' as [<-|Hin']; [lia|].
    apply Sorted_StronglySorted in Hsort;
      [|intros a b c Hab Hbc; unfold newer_first in *; lia].
    inversion Hsort as [|x xs _ Hall]; subst.
    rewrite Forall_forall in Hall. exact (Hall r Hin').
Qed.

(** * The command line of App *)

Module Cli.
Section Methods.
Variable env : Env.
Variable same : string -> string -> bool.
(** Whether [rss.validateFeedUrl] resolves for a url (it rejects
    otherwise). *)
Variable validates : string -> bool.

(** Every [catch] of these three methods logs and calls
    [process.exit(1)]. *)
Definition addFeed (u : string) (s : Store) : outcome Store unit :=
  if validates u then
    match DatabaseService.addFeed env u s with
    | Return _ s' => Return tt s'
    | Throw _ s' => Exit 1 s'
    | Exit c s' => Exit c s'
    end
  else Exit 1 s.

Definition removeFeed (u : string) (s : Store) : outcome Store unit :=
  match removeFeed same u s with
  | Return _ s' => Return tt s'
  | Throw _ s' => Exit 1 s'
  | Exit c s' => Exit c s'
  end.

(** [feeds.length === 0] throws on [undefined]; on a row object it is
    false, and [feeds.forEach] is then not a function. *)
Definition listFeeds (s : Store) : outcome Store unit :=
  match DatabaseService.listFeeds s with
  | Return Undefined s' => Exit 1 s'
  | Return (Single _) s' => Exit 1 s'
  | Return (Many _) s' => Return tt s'
  | Throw _ s' => Exit 1 s'
  | Exit c s' => Exit c s'
  end.

(** [process.argv.slice(2)], read from the left; [!addUrl] holds for a
    missing argument and for the empty string. *)
Fixpoint handleCLI (args : list string) (s : Store) : outcome Store unit :=
  match args with
  | [] => Return tt s
  | arg :: rest =>
      if String.eqb arg "--list" then
        bind (listFeeds s) (fun _ s' => handleCLI rest s')
      else if String.eqb arg "--add" then
        match rest with
        | [] => Exit 1 s
        | addUrl :: rest' =>
            if String.eqb addUrl EmptyString then Exit 1 s
            else bind (addFeed addUrl s) (fun _ s' => handleCLI rest' s')
        end
      else if String.eqb arg "--remove" then
        match rest with
        | [] => Exit 1 s
        | removeUrl :: rest' =>
            if String.eqb removeUrl EmptyString then Exit 1 s
            else bind (removeFeed removeUrl s) (fun _ s' => handleCLI rest' s')
        end
      else Exit 1 s
  end.

End Methods.
End Cli.

(** X9. [App.addFeed] always ends the process with status 1. When the url
    fails validation the store is untouched; when it validates and its hash
    is new, the feed row has been inserted all the same. *)
Theorem cli_addFeed_always_exits (env : Env) (validates : string -> bool)
    (u : string) (s : Store) :
  let s' := if validates u then state_of (DatabaseService.addFeed env u s)
            else s in
  Cli.addFeed env validates u s = Exit 1 s'
  /\ posts s' = posts s
  /\ feeds s' = if validates u && negb (url_hash_known env u s)
                then feeds s ++ [mkFeedRow (feeds_auto s) u (SHA2 env u) None]
                else feeds s.
Proof.
  unfold Cli.addFeed, url_hash_known.
  destruct (validates u); simpl; [|repeat split].
  unfold DatabaseService.addFeed, sql, insert_feed.
  destruct (existsb _ (feeds s)); simpl; repeat split.
Qed.

(** X10. [App.listFeeds] never lists: whatever the table holds, it ends the
    process with status 1 and leaves the store as it was. *)
Theorem cli_listFeeds_always_exits (s : Store) : Cli.listFeeds s = Exit 1 s.
Proof.
  unfold Cli.listFeeds, DatabaseService.listFeeds, sql, select_feeds. simpl.
  now destruct (feeds s).
Qed.

Lemma cli_removeFeed_exits (same : string -> string -> bool) (u : string)
    (s : Store) :
  Cli.removeFeed same u s = Exit 1 (state_of (removeFeed same u s)).
Proof. reflexivity. Qed.

(** X11. [handleCLI] returns when there is no argument; with any argument
    at all it ends the process with status 1 at the first command, so that
    what follows on the command line is never looked at. *)
Theorem handleCLI_exits_at_first_command (env : Env)
    (same : string -> string -> bool) (validates : string -> bool)
    (args : list string) (s : Store) :
  Cli.handleCLI env same validates [] s = Return tt s
  /\ (args <> [] ->
      exists s',
        Cli.handleCLI env same validates args s = Exit 1 s'
        /\ Cli.handleCLI env same validates (firstn 2 args) s = Exit 1 s').
Proof.
  split; [reflexivity|].
  destruct args as [|arg rest]; [contradiction|]. intros _.
  simpl firstn. unfold Cli.handleCLI; fold Cli.handleCLI.
  destruct (String.eqb arg "--list").
  { unfold Cli.listFeeds, DatabaseService.listFeeds, sql, select_feeds.
    simpl. destruct (feeds s); simpl; now exists s. }
  destruct (String.eqb arg "--add").
  { destruct rest as [|addUrl rest']; [now exists s|]. simpl firstn.
    destruct (String.eqb addUrl EmptyString); [now exists s|].
    unfold Cli.addFeed. destruct (validates addUrl); [|now exists s].
    unfold DatabaseService.addFeed, sql, insert_feed.
    destruct (existsb _ (feeds s)); simpl; eexists; split; reflexivity. }
  destruct (String.eqb arg "--remove").
  { destruct rest as [|removeUrl rest']; [now exists s|]. simpl firstn.
    destruct (String.eqb removeUrl EmptyString); [now exists s|].
    rewrite cli_removeFeed_exits. simpl. eexists. split; reflexivity. }
  now exists s.
Qed.

Lemma handleCLI_exits_at_first_command_witness :
  ["--list"%string; "--add"%string; "http://c.test/feed.xml"%string] <> []
  /\ exists s',
       Cli.handleCLI (quiet_env SesRejects) String.eqb (fun _ => true)
         ["--list"%string; "--add"%string; "http://c.test/feed.xml"%string]
         two_feeds = Exit 1 s'.
Proof.
  assert (Hne : ["--list"%string; "--add"%string;
                 "http://c.test/feed.xml"%string] <> []) by discriminate.
  split; [exact Hne|].
  destruct (proj2 (handleCLI_exits_at_first_command (quiet_env SesRejects)
                     String.eqb (fun _ => true)
                     ["--list"%string; "--add"%string;
                      "http://c.test/feed.xml"%string] two_feeds) Hne)
    as [s' [H _]].
  now exists s'.
Defined.

(** * Start-up *)

(** ** isDatabaseFullyInitialized *)

(** A row of SHOW COLUMNS. *)
Record ColumnRow := mkColumnRow { Field : string; Key : string }.

Section Initialized.
(** The two SHOW COLUMNS statements, answered by the server in any way. *)
Variable show_feeds_columns : Store -> reply ColumnRow.
Variable show_posts_columns : Store -> reply ColumnRow.

(** [.length] of what an array pattern bound: no such property on a row. *)
Definition length_of (check : ColumnRow) : option Z := None.

(** [a === n] for a value that may be [undefined]. *)
Definition strict_eq (a : option Z) (n : Z) : bool :=
  match a with Some x => x =? n | None => false end.

(** The [catch] logs and returns [false]; reading [.length] of [undefined]
    throws. *)
Definition isDatabaseFullyInitialized (s : Store) : outcome Store bool :=
  match sql show_feeds_columns s with
  | Exit c s1 => Exit c s1
  | Throw _ s1 => Return false s1
  | Return res1 s1 =>
      match array_first res1 with
      | None => Return false s1
      | Some feedsCheck =>
          match sql show_posts_columns s1 with
          | Exit c s2 => Exit c s2
          | Throw _ s2 => Return false s2
          | Return res2 s2 =>
              match array_first res2 with
              | None => Return false s2
              | Some postsCheck =>
                  match feedsCheck with
                  | None => Return false s2
                  | Some feedsRow =>
                      if strict_eq (length_of feedsRow) 4 then
                        match postsCheck with
                        | None => Return false s2
                        | Some postsRow =>
                            Return (strict_eq (length_of postsRow) 8) s2
                        end
                      else Return false s2
                  end
              end
          end
      end
  end.

End Initialized.

(** X12. [isDatabaseFullyInitialized] never answers [true], whatever the
    server says about the columns of the two tables: it answers [false], or
    the process has ended inside [sql]. *)
Theorem isDatabaseFullyInitialized_never_true
    (show_feeds_columns show_posts_columns : Store -> reply ColumnRow)
    (s : Store) :
  exists s',
    isDatabaseFullyInitialized show_feeds_columns show_posts_columns s
      = Return false s'
    \/ isDatabaseFullyInitialized show_feeds_columns show_posts_columns s
      = Exit 1 s'.
Proof.
  unfold isDatabaseFullyInitialized, sql.
  destruct (show_feeds_columns s) as [e|[res1 f1] s1];
    [exists s; now right|].
  destruct (array_first res1) as [feedsCheck|]; [|exists s1; now left].
  destruct (show_posts_columns s1) as [e|[res2 f2] s2];
    [exists s1; now right|].
  destruct (array_first res2) as [postsCheck|]; [|exists s2; now left].
  destruct feedsCheck; exists s2; now left.
Qed.

(** ** generateRandomPassword *)

Definition chars : string :=
  "ABCDEFGHIJKLMNOPQRSTUVWXYZabcdefghijklmnopqrstuvwxyz0123456789!@#$%^&*()_+".

(** [chars[i]] as a string to join: nothing for [undefined]. *)
Definition char_at (i : nat) : string :=
  match String.get i chars with
  | Some c => String c EmptyString
  | None => EmptyString
  end.

(** The argument is what [crypto.getRandomValues] wrote into the
    [Uint32Array(length)]. *)
Definition generateRandomPassword (randomValues : list N) : string :=
  String.concat EmptyString
    (map (fun x => char_at (N.to_nat (x mod N.of_nat (String.length chars))))
       randomValues).

Definition quote : Ascii.ascii := Ascii.ascii_of_nat 39.
Definition backslash : Ascii.ascii := Ascii.ascii_of_nat 92.

(** A character of [chars] that is neither a quote nor a backslash. *)
Definition harmless (c : Ascii.ascii) : bool :=
  existsb (Ascii.eqb c) (list_ascii_of_string chars)
  && negb (Ascii.eqb c quote) && negb (Ascii.eqb c backslash).

Lemma chars_all_harmless :
  forallb (fun i => match String.get i chars with
                    | Some c => harmless c
                    | None => false
                    end) (seq 0 (String.length chars)) = true.
Proof. vm_compute. reflexivity. Qed.

Lemma char_at_harmless (i : nat) :
  (i < String.length chars)%nat ->
  exists c, char_at i = String c EmptyString /\ harmless c = true.
Proof.
  intros Hi. pose proof chars_all_harmless as H.
  rewrite forallb_forall in H. specialize (H i).
  unfold char_at. destruct (String.get i chars) as [c|].
  - exists c. split; [reflexivity|]. apply H. apply in_seq. lia.
  - assert (false = true) by (apply H; apply in_seq; lia). discriminate.
Qed.

Lemma concat_empty_cons (x : string) (xs : list string) :
  String.concat EmptyString (x :: xs)
  = (x ++ String.concat EmptyString xs)%string.
Proof.
  destruct xs as [|y ys]; simpl; [|reflexivity].
  induction x as [|c x IH]; simpl; [reflexivity | now rewrite <- IH].
Qed.

(** X13. A password of [generateRandomPassword] has one character for each
    random value drawn, that is the length asked for, and every character
    is one of the 74 of [chars]: never a quote or a backslash, so that the
    CREATE USER statement it is spliced into keeps its quoting. *)
Theorem generateRandomPassword_alphabet (randomValues : list N) :
  String.length (generateRandomPassword randomValues)
    = List.length randomValues
  /\ Forall (fun c => In c (list_ascii_of_string chars)
                      /\ c <> quote /\ c <> backslash)
       (list_ascii_of_string (generateRandomPassword randomValues)).
Proof.
  unfold generateRandomPassword.
  induction randomValues as [|x xs [IHlen IHall]];
    [split; [reflexivity | constructor]|].
  cbn [map]. rewrite concat_empty_cons.
  destruct (char_at_harmless
              (N.to_nat (x mod N.of_nat (String.length chars)))) as [c [-> Hc]].
  { assert (x mod N.of_nat (String.length chars)
            < N.of_nat (String.length chars))%N
      by (apply N.mod_lt; discriminate).
    lia. }
  cbn [String.append String.length list_ascii_of_string Datatypes.length].
  split; [now rewrite IHlen|].
  constructor; [|exact IHall].
  unfold harmless in Hc. apply andb_prop in Hc. destruct Hc as [Hc Hb].
  apply andb_prop in Hc. destruct Hc as [Hin Hq].
  split; [|split].
  - apply existsb_exists in Hin. destruct Hin as [d [Hd E]].
    apply Ascii.eqb_eq in E. now subst.
  - intros ->. now rewrite Ascii.eqb_refl in Hq.
  - intros ->. now rewrite Ascii.eqb_refl in Hb.
Qed.

Example generateRandomPassword_three :
  generateRandomPassword [0%N; 74%N; 4294967295%N] = "AAr"%string.
Proof. vm_compute. reflexivity. Qed.

(** * The mysql module: _security *)

(** Regular expressions, as far as the pattern of [_security] needs them. *)
Inductive regex :=
| Class (p : Ascii.ascii -> bool)
| Then (a b : regex)
| Or (a b : regex)
| Plus (a : regex).

(** One or more rounds of [step]; each round consumes a character, so the
    length of the input bounds the rounds. *)
Fixpoint rounds (step : list Ascii.ascii -> list (list Ascii.ascii))
    (fuel : nat) (l : list Ascii.ascii) : list (list Ascii.ascii) :=
  match fuel with
  | O => []
  | S n => flat_map (fun rest => rounds step n rest ++ [rest]) (step l)
  end.

(** What can be left of [l] once a prefix of it has matched, longest
    attempts first. *)
Fixpoint leftovers (r : regex) (l : list Ascii.ascii)
  : list (list Ascii.ascii) :=
  match r with
  | Class p =>
      match l with
      | c :: rest => if p c then [rest] else []
      | [] => []
      end
  | Then a b => flat_map (leftovers b) (leftovers a l)
  | Or a b => leftovers a l ++ leftovers b l
  | Plus a => rounds (leftovers a) (List.length l) l
  end.

(** [exec]: a match at the first position where there is one. *)
Fixpoint exec (r : regex) (l : list Ascii.ascii) : bool :=
  match leftovers r l with
  | _ :: _ => true
  | [] =>
      match l with
      | [] => false
      | _ :: rest => exec r rest
      end
  end.

(** [\w] *)
Definition word (c : Ascii.ascii) : bool :=
  let n := Ascii.nat_of_ascii c in
  ((48 <=? n) && (n <=? 57) || (65 <=? n) && (n <=? 90)
   || (97 <=? n) && (n <=? 122) || (n =? 95))%nat.

Definition dot : Ascii.ascii := Ascii.ascii_of_nat 46.

(** [/(\w+)\.(\w+)|(\w+)/gm] *)
Definition procedure_pattern : regex :=
  Or (Then (Plus (Class word))
        (Then (Class (Ascii.eqb dot)) (Plus (Class word))))
     (Plus (Class word)).

Definition _security (str : string) : bool :=
  exec procedure_pattern (list_ascii_of_string str).

Lemma leftovers_pattern_head (l : list Ascii.ascii) :
  leftovers procedure_pattern l <> []
  <-> exists c rest, l = c :: rest /\ word c = true.
Proof.
  split.
  - intros H. destruct l as [|c rest]; [now elim H|].
    exists c, rest. split; [reflexivity|].
    destruct (word c) eqn:E; [reflexivity|]. exfalso. apply H.
    unfold procedure_pattern. cbn [leftovers List.length rounds].
    now rewrite E.
  - intros [c [rest [-> Hc]]].
    unfold procedure_pattern. cbn [leftovers List.length rounds].
    rewrite Hc. cbn [flat_map]. rewrite app_nil_r.
    intros H. apply app_eq_nil in H. destruct H as [_ H].
    apply app_eq_nil in H. destruct H as [_ H]. discriminate H.
Qed.

Lemma exec_pattern (l : list Ascii.ascii) :
  exec procedure_pattern l = existsb word l.
Proof.
  induction l as [|c rest IH].
  - reflexivity.
  - cbn [exec existsb].
    destruct (leftovers procedure_pattern (c :: rest)) as [|x xs] eqn:E.
    + assert (Hw : word c = false).
      { destruct (word c) eqn:Ew; [|reflexivity]. exfalso.
        assert (H : leftovers procedure_pattern (c :: rest) <> [])
          by (apply leftovers_pattern_head; now exists c, rest).
        now apply H. }
      now rewrite Hw, IH.
    + assert (H : leftovers procedure_pattern (c :: rest) <> [])
        by (rewrite E; discriminate).
      apply leftovers_pattern_head in H.
      destruct H as [c' [rest' [Heq Hc]]]. injection Heq as <- <-.
      now rewrite Hc.
Qed.

(** X14. [_security] accepts a procedure name exactly when the name has at
    least one letter, digit or underscore somewhere: whatever else the name
    holds, parentheses, semicolons or further statements, does not matter. *)
Theorem security_accepts_any_word_character (str : string) :
  _security str = true
  <-> exists c, In c (list_ascii_of_string str) /\ word c = true.
Proof.
  unfold _security. rewrite exec_pattern. apply existsb_exists.
Qed.

Example security_accepts_a_second_statement :
  _security "p(); DROP TABLE feeds; --" = true /\ _security "(); --" = false.
Proof. split; vm_compute; reflexivity. Qed.

(** * More on the pipeline *)

(** X15. Of two candidates with the same title or the same link, whatever
    their feeds, [saveNewPosts] stores at most one. Items that come without
    a link all get the empty link from [fetchFeed], so this holds for
    them. *)
Theorem saveNewPosts_same_key_once (env : Env) (p q : Post) (s : Store) :
  title p = title q \/ link p = link q ->
  exists s',
    DatabaseService.saveNewPosts env [p; q] s = Return tt s'
    /\ (List.length (posts s') <= List.length (posts s) + 1)%nat.
Proof.
  intros Hkey. rewrite saveNewPosts_ingest. eexists. split; [reflexivity|].
  simpl. unfold ingest at 2, insert_ignore_post.
  destruct (post_conflict env p s) eqn:Ep.
  - unfold ingest, insert_ignore_post.
    destruct (post_conflict env q s); simpl; [lia|].
    rewrite length_app. simpl. lia.
  - assert (Eq : post_conflict env q
                   (mkStore (feeds s)
                      (posts s ++
                         [mkPostRow (posts_auto s) (title p) (link p)
                            (SHA2 env (title p)) (content p) (pubDate p)
                            (feedId p) false])
                      (feeds_auto s) (posts_auto s + 1)) = true).
    { unfold post_conflict. simpl. rewrite !existsb_app. simpl.
      destruct Hkey as [<-|<-]; rewrite String.eqb_refl;
        rewrite ?orb_true_r; reflexivity. }
    unfold ingest, insert_ignore_post. rewrite Eq. simpl.
    rewrite length_app. simpl. lia.
Qed.

Definition candidate_nolink (t : string) : Post :=
  mkPost None t "" "" 20 1 false.

Lemma saveNewPosts_same_key_once_witness :
  (title (candidate_nolink "A") = title (candidate_nolink "B")
   \/ link (candidate_nolink "A") = link (candidate_nolink "B"))
  /\ DatabaseService.saveNewPosts (quiet_env SesRejects)
       [candidate_nolink "A"; candidate_nolink "B"] two_feeds
     = Return tt
         (mkStore (feeds two_feeds) [mkPostRow 1 "A" "" "A" "" 20 1 false]
            3 2).
Proof.
  assert (H : title (candidate_nolink "A") = title (candidate_nolink "B")
              \/ link (candidate_nolink "A") = link (candidate_nolink "B"))
    by (right; reflexivity).
  split; [exact H|].
  destruct (saveNewPosts_same_key_once (quiet_env SesRejects)
              (candidate_nolink "A") (candidate_nolink "B") two_feeds H)
    as [s' [_ _]].
  reflexivity.
Defined.

Definition one_unsent : Store :=
  mkStore (feeds two_feeds)
    [mkPostRow 1 "Y" "http://b.test/y" "Y" "" 30 2 false] 3 2.

Lemma notify_after_send_witness :
  lift (db_getUnsentPosts (arrayReaders (quiet_env SesRejects)))
       (mkWorld one_unsent [] [])
    = Return (Many [post_Y_stored]) (mkWorld one_unsent [] [])
  /\ [post_Y_stored] <> []
  /\ App.notify (quiet_env SesRejects) false
       (arrayReaders (quiet_env SesRejects)) (mkWorld one_unsent [] [])
     = Throw SendError (mkWorld one_unsent [] [[post_Y_stored]]).
Proof.
  split; [reflexivity|]. split; [discriminate|].
  exact (notify_after_send (quiet_env SesRejects)
           (arrayReaders (quiet_env SesRejects))
           (mkWorld one_unsent [] []) (mkWorld one_unsent [] [])
           [post_Y_stored] eq_refl ltac:(discriminate)).
Defined.

Lemma ingest_appends (env : Env) (s : Store) (p : Post) :
  feeds (ingest env s p) = feeds s
  /\ exists added,
       posts (ingest env s p) = posts s ++ added
       /\ Forall (fun r => pr_sent r = false /\ pr_title r = title p
                           /\ pr_link r = link p /\ pr_feedId r = feedId p)
            added.
Proof.
  unfold ingest, insert_ignore_post.
  destruct (post_conflict env p s); simpl; split; try reflexivity.
  - exists []. split; [now rewrite app_nil_r | constructor].
  - eexists. split; [reflexivity|]. repeat constructor.
Qed.

(** X18. [saveNewPosts] only appends. It always returns; the feeds and the
    posts already stored are as before; and each row it adds is unsent and
    carries the title, link and feed of one of the candidates, whatever that
    candidate's own [sent] and [id] say. *)
Theorem saveNewPosts_only_appends (env : Env) (ps : list Post) (s : Store) :
  exists s' added,
    DatabaseService.saveNewPosts env ps s = Return tt s'
    /\ feeds s' = feeds s
    /\ posts s' = posts s ++ added
    /\ Forall (fun r => pr_sent r = false
                        /\ exists p, In p ps /\ pr_title r = title p
                                     /\ pr_link r = link p
                                     /\ pr_feedId r = feedId p) added.
Proof.
  rewrite saveNewPosts_ingest.
  revert s; induction ps as [|p ps IH]; intros s.
  - exists s, []. simpl. rewrite app_nil_r. repeat split. constructor.
  - destruct (ingest_appends env s p) as [Hf [a1 [Hp Ha1]]].
    destruct (IH (ingest env s p)) as [s' [a2 [E [Hf' [Hp' Ha2]]]]].
    injection E as E. exists s', (a1 ++ a2). simpl. rewrite E.
    split; [reflexivity|]. split; [congruence|].
    split; [now rewrite Hp', Hp, app_assoc|].
    apply Forall_app. split.
    + eapply Forall_impl; [|exact Ha1]. intros r [H1 [H2 [H3 H4]]].
      split; [exact H1|]. exists p. simpl. tauto.
    + eapply Forall_impl; [|exact Ha2]. intros r [H1 [q [Hq H2]]].
      split; [exact H1|]. exists q. simpl. tauto.
Qed.
